(** * OpenEPaperLink image platform

    A shallow embedding of
    [custom_components/open_epaper_link/image.py]: the setup routine that
    creates one image entity per eligible tag, and the image entity itself
    (availability, image retrieval, dispatcher subscriptions).

    Python objects that are shared and mutated (the hub, the set
    [added_entities] of the setup closure, the entity's [_image_path] and
    its list of removal callbacks, the dispatcher table) are modelled by
    explicit state passing; a call that can raise yields its outcome
    together with the state it leaves. *)

From Stdlib Require Import ZArith.
From stdpp Require Import base option list strings gmap sets.

Local Open Scope string_scope.
Local Open Scope list_scope.

(** ** Python values and results *)

(** The values stored in a tag record ([hw_type] is an integer, [tag_name]
    a string). *)
Inductive value :=
  | VInt (n : Z)
  | VStr (s : string).

(** Exceptions.  The first three are subclasses of [OSError]. *)
Inductive exception :=
  | FileNotFoundError
  | PermissionError
  | IsADirectoryError
  | OtherException (name : string).

(** [isinstance(err, OSError)], the test made by [except OSError]. *)
Definition is_OSError (err : exception) : bool :=
  match err with
  | FileNotFoundError | PermissionError | IsADirectoryError => true
  | OtherException _ => false
  end.

(** [TypeError], raised by a call that omits a required argument. *)
Definition TypeError : exception := OtherException "TypeError".

(** The outcome of a call: it returns a value or raises. *)
Inductive result (A : Type) :=
  | Return (a : A)
  | Raise (err : exception).
Arguments Return {A} a.
Arguments Raise {A} err.

(** ** The hub (collaborator, [hub.py])

    Only the interface consumed by the image platform: the connectivity
    flag, the known tags (iterated in order by the setup routine), the
    blacklist and the per-tag record. *)
Record Hub := {
  online : bool;
  tags : list string;
  get_blacklisted_tags : gset string;
  get_tag_data : string → gmap string value;
}.

(** ** The file system seen by [os.path.exists] and [open(..., "rb")] *)
Inductive node :=
  | File (content : list Byte.byte) (readable : bool)
  | Directory.

Definition os_path_exists (fs : gmap string node) (path : string) : bool :=
  bool_decide (is_Some (fs !! path)).

(** [open(path, "rb").read()] *)
Definition open_rb_read (fs : gmap string node) (path : string)
  : result (list Byte.byte) :=
  match fs !! path with
  | Some (File content true) => Return content
  | Some (File _ false) => Raise PermissionError
  | Some Directory => Raise IsADirectoryError
  | None => Raise FileNotFoundError
  end.

(** [hass.async_add_executor_job(f)] awaited: the job's outcome, computed
    off the event loop, is the outcome of the await. *)
Definition async_add_executor_job {A} (job : result A) : result A := job.

(** ** Device metadata and the entity object *)
Record DeviceInfo := {
  identifiers : gset (string * string);
  name : value;
  manufacturer : string;
  model : string;
  via_device : string * string;
}.

(** The fields of an [OpenEPaperLinkImageEntity].  [_hub] is a reference to
    the shared hub object, so the hub state is passed to every method that
    reads it instead of being stored here.  [entity_id] and [_on_remove]
    belong to the host's base class. *)
Record OpenEPaperLinkImageEntity := {
  _tag_mac : string;
  _attr_unique_id : string;
  _attr_device_info : DeviceInfo;
  _image_path : option string;
  entity_id : option string;
  _on_remove : list nat;
}.

Definition set_image_path (self : OpenEPaperLinkImageEntity)
    (p : option string) : OpenEPaperLinkImageEntity :=
  {| _tag_mac := _tag_mac self;
     _attr_unique_id := _attr_unique_id self;
     _attr_device_info := _attr_device_info self;
     _image_path := p;
     entity_id := entity_id self;
     _on_remove := _on_remove self |}.

Definition set_on_remove (self : OpenEPaperLinkImageEntity)
    (l : list nat) : OpenEPaperLinkImageEntity :=
  {| _tag_mac := _tag_mac self;
     _attr_unique_id := _attr_unique_id self;
     _attr_device_info := _attr_device_info self;
     _image_path := _image_path self;
     entity_id := entity_id self;
     _on_remove := l |}.

(** A record of [_LOGGER.error("Could not read image file for %s: %s",
    self.entity_id, err)]. *)
Record LogRecord := {
  log_entity_id : option string;
  log_err : exception;
}.

(** ** The host's dispatcher ([homeassistant.helpers.dispatcher])

    A table of connections.  [async_dispatcher_connect] adds one and returns
    a function that removes exactly that connection; the function is
    represented by the connection's handle.  Entity objects are named by a
    reference into the object store. *)
Inductive target :=
  | AddImageEntity
  | WriteHaState (self : nat)
  | HandleBlacklistUpdate (self : nat).

#[global] Instance target_eq_dec : EqDecision target.
Proof. solve_decision. Defined.

Record Connection := {
  conn_handle : nat;
  conn_signal : string;
  conn_target : target;
}.

Record Dispatcher := {
  connections : list Connection;
  next_handle : nat;
}.

Definition async_dispatcher_connect (bus : Dispatcher) (signal : string)
    (tgt : target) : Dispatcher * nat :=
  ({| connections :=
        connections bus
        ++ [ {| conn_handle := next_handle bus;
                conn_signal := signal;
                conn_target := tgt |} ];
      next_handle := S (next_handle bus) |},
   next_handle bus).

(** Calling the function returned by [async_dispatcher_connect]. *)
Definition remove_dispatcher (bus : Dispatcher) (h : nat) : Dispatcher :=
  {| connections := filter (λ c, conn_handle c ≠ h) (connections bus);
     next_handle := next_handle bus |}.

(** The targets a signal is delivered to, in connection order. *)
Definition listeners (bus : Dispatcher) (signal : string) : list target :=
  conn_target <$> filter (λ c, conn_signal c = signal) (connections bus).

(** [Entity.async_on_remove(func)] of the host's base class. *)
Definition async_on_remove (self : OpenEPaperLinkImageEntity) (h : nat)
  : OpenEPaperLinkImageEntity :=
  set_on_remove self (_on_remove self ++ [h]).

(** Removal of an entity by the host:
    [while self._on_remove: self._on_remove.pop()()]. *)
Definition async_remove (self : OpenEPaperLinkImageEntity) (bus : Dispatcher)
  : OpenEPaperLinkImageEntity * Dispatcher :=
  (set_on_remove self [],
   fold_left remove_dispatcher (rev (_on_remove self)) bus).

(** ** State of the setup routine and of the whole platform *)

(** [added_entities] is the set captured by the closure
    [async_add_image_entity]; [add_entities_calls] lists the arguments of
    the calls it made to [async_add_entities], oldest first. *)
Record SetupState := {
  added_entities : gset string;
  add_entities_calls : list (list OpenEPaperLinkImageEntity);
}.

(** All entities handed to the host so far. *)
Definition registered (st : SetupState) : list OpenEPaperLinkImageEntity :=
  concat (add_entities_calls st).

Record World := {
  w_hub : Hub;
  w_bus : Dispatcher;
  w_objects : gmap nat OpenEPaperLinkImageEntity;
  w_setup : SetupState;
  w_on_unload : list nat;
  w_states : list (nat * bool);
}.

Definition set_w_hub (w : World) (hub : Hub) : World :=
  {| w_hub := hub; w_bus := w_bus w; w_objects := w_objects w;
     w_setup := w_setup w; w_on_unload := w_on_unload w;
     w_states := w_states w |}.

Definition set_w_setup (w : World) (st : SetupState) : World :=
  {| w_hub := w_hub w; w_bus := w_bus w; w_objects := w_objects w;
     w_setup := st; w_on_unload := w_on_unload w;
     w_states := w_states w |}.

Definition set_w_states (w : World) (l : list (nat * bool)) : World :=
  {| w_hub := w_hub w; w_bus := w_bus w; w_objects := w_objects w;
     w_setup := w_setup w; w_on_unload := w_on_unload w;
     w_states := l |}.

Definition set_w_entity (w : World) (ref : nat)
    (self : OpenEPaperLinkImageEntity) (bus : Dispatcher) : World :=
  {| w_hub := w_hub w; w_bus := bus; w_objects := <[ref := self]> (w_objects w);
     w_setup := w_setup w; w_on_unload := w_on_unload w;
     w_states := w_states w |}.

(** What can happen to the platform once it is loaded. *)
Inductive action :=
  | HubUpdate (hub : Hub)
  | DispatcherSend (signal : string) (args : list string)
  | AddedToHass (ref : nat)
  | Removed (ref : nat).

(** ** What [image.py] imports from the rest of the integration

    The constants of [const.py], [tag_types.get_hw_string] and
    [util.get_image_path] are defined in other files; the development is
    parametric in them.  [HomeAssistant] is the host object handed to
    [get_image_path]. *)
Class Integration := {
  DOMAIN : string;
  SIGNAL_TAG_IMAGE_UPDATE : string;
  get_hw_string : value → string;
  HomeAssistant : Type;
  get_image_path : HomeAssistant → string → string;
}.

(** ** Predicates used in the statements *)

(** The tracking set and the entities handed to the host agree, no tag
    has two entities, and the access point has none. *)
Definition setup_inv (st : SetupState) : Prop :=
  NoDup (_tag_mac <$> registered st)
  ∧ (∀ m, m ∈ _tag_mac <$> registered st ↔ m ∈ added_entities st)
  ∧ "ap" ∉ added_entities st.


(** The bound methods of the entity object [ref]. *)
Definition target_of (ref : nat) (tgt : target) : Prop :=
  tgt = WriteHaState ref ∨ tgt = HandleBlacklistUpdate ref.

#[global] Instance target_of_dec ref tgt : Decision (target_of ref tgt).
Proof. unfold target_of. apply _. Defined.

(** No connection of the dispatcher leads to the entity [ref]. *)
Definition unsubscribed (ref : nat) (bus : Dispatcher) : Prop :=
  ∀ c, c ∈ connections bus → ¬ target_of ref (conn_target c).

(** The state writes made for the entity [ref]. *)
Definition states_of (ref : nat) (w : World) : list (nat * bool) :=
  filter (λ s, s.1 = ref) (w_states w).

(** The entity [ref] is attached: its object [self] is in the store, the
    connections that lead to it are exactly those named by the handles
    [n], [n+1], [n+2] it keeps for its removal, and later handles are
    fresh. *)
Definition attached (ref : nat) (self : OpenEPaperLinkImageEntity)
    (n : nat) (w : World) : Prop :=
  w_objects w !! ref = Some self
  ∧ _on_remove self = [n; S n; S (S n)]
  ∧ (∀ c, c ∈ connections (w_bus w) →
          target_of ref (conn_target c)
          ↔ conn_handle c ∈ [n; S n; S (S n)])
  ∧ (n + 3 ≤ next_handle (w_bus w))%nat.

(** No other entity keeps a handle of the entity [ref]. *)
Definition handles_apart (ref n : nat) (w : World) : Prop :=
  ∀ r self h,
    r ≠ ref → w_objects w !! r = Some self → h ∈ _on_remove self →
    h ∉ [n; S n; S (S n)].

(** Unloading of the config entry by the host: the callbacks given to
    [entry.async_on_unload] are called, last registered first. *)
Definition async_unload_entry (w : World) : World :=
  {| w_hub := w_hub w;
     w_bus := fold_left remove_dispatcher (rev (w_on_unload w)) (w_bus w);
     w_objects := w_objects w; w_setup := w_setup w; w_on_unload := [];
     w_states := w_states w |}.

(** A tag for which the setup routine creates an entity. *)
Definition eligible (hub : Hub) (tag_mac : string) : Prop :=
  tag_mac ≠ "ap" ∧ tag_mac ∉ get_blacklisted_tags hub.

#[global] Instance eligible_dec hub tag_mac : Decision (eligible hub tag_mac).
Proof. unfold eligible. apply _. Defined.

Section Model.

Context {integration : Integration}.

(** [ImageEntity.__init__(self, hass, verify_ssl=False)] of the host's
    image component.  [hass] is a required argument: a call without it
    raises [TypeError]. *)
Definition ImageEntity_init (hass : option HomeAssistant) : result unit :=
  match hass with
  | Some _ => Return ()
  | None => Raise TypeError
  end.

(** *** [OpenEPaperLinkImageEntity.__init__]

    The first statement is [super().__init__()], a call of the host's
    constructor without [hass]; the fields are set after it. *)
Definition __init__ (hub : Hub) (tag_mac : string)
  : result OpenEPaperLinkImageEntity :=
  match ImageEntity_init None with
  | Raise err => Raise err
  | Return _ =>
      let tag_data := get_tag_data hub tag_mac in
      let hw_type := default (VInt 0) (tag_data !! "hw_type") in
      Return
        {| _tag_mac := tag_mac;
           _attr_unique_id := tag_mac +:+ "_content";
           _attr_device_info :=
             {| identifiers := {[ (DOMAIN, tag_mac) ]};
                name := default (VStr tag_mac) (tag_data !! "tag_name");
                manufacturer := "OpenEPaperLink";
                model := get_hw_string hw_type;
                via_device := (DOMAIN, "ap") |};
           _image_path := None;
           entity_id := None;
           _on_remove := [] |}
  end.

(** *** [OpenEPaperLinkImageEntity.available] *)
Definition available (hub : Hub) (self : OpenEPaperLinkImageEntity) : bool :=
  online hub
  && bool_decide (_tag_mac self ∈ tags hub)
  && negb (bool_decide (_tag_mac self ∈ get_blacklisted_tags hub)).

(** *** [OpenEPaperLinkImageEntity.async_image]

    Returns the outcome, the entity after the call and the log. *)
Definition async_image (hass : HomeAssistant) (fs : gmap string node)
    (self : OpenEPaperLinkImageEntity) (log : list LogRecord)
  : result (option (list Byte.byte)) * OpenEPaperLinkImageEntity
    * list LogRecord :=
  let '(self, path) :=
    match _image_path self with
    | None =>
        let p := get_image_path hass (DOMAIN +:+ "." +:+ _tag_mac self) in
        (set_image_path self (Some p), p)
    | Some p => (self, p)
    end in
  if negb (os_path_exists fs path) then (Return None, self, log)
  else
    match async_add_executor_job (open_rb_read fs path) with
    | Return content => (Return (Some content), self, log)
    | Raise err =>
        if is_OSError err then
          (Return None, self,
           log ++ [ {| log_entity_id := entity_id self; log_err := err |} ])
        else (Raise err, self, log)
    end.

(** *** [OpenEPaperLinkImageEntity.async_added_to_hass]

    [ref] is the reference of [self] in the object store; the bound
    methods given to the dispatcher refer to it. *)
Definition async_added_to_hass (ref : nat)
    (self : OpenEPaperLinkImageEntity) (bus : Dispatcher)
  : OpenEPaperLinkImageEntity * Dispatcher :=
  let '(bus, h) :=
    async_dispatcher_connect bus
      (SIGNAL_TAG_IMAGE_UPDATE +:+ "_" +:+ _tag_mac self)
      (WriteHaState ref) in
  let self := async_on_remove self h in
  let '(bus, h) :=
    async_dispatcher_connect bus (DOMAIN +:+ "_connection_status")
      (WriteHaState ref) in
  let self := async_on_remove self h in
  let '(bus, h) :=
    async_dispatcher_connect bus (DOMAIN +:+ "_blacklist_update")
      (HandleBlacklistUpdate ref) in
  let self := async_on_remove self h in
  (self, bus).

(** [Entity.async_write_ha_state] of the host's base class: the state
    written for the entity carries its availability, read from the hub at
    the time of the call. *)
Definition async_write_ha_state (ref : nat) (w : World) : World :=
  match w_objects w !! ref with
  | Some self => set_w_states w (w_states w ++ [(ref, available (w_hub w) self)])
  | None => w
  end.

(** *** [OpenEPaperLinkImageEntity._handle_blacklist_update] *)
Definition _handle_blacklist_update (ref : nat) (w : World) : World :=
  async_write_ha_state ref w.

(** *** The closure [async_add_image_entity] of [async_setup_entry]

    The outcome of the call and the state it leaves.  When the
    constructor raises, the exception leaves the closure before
    [async_add_entities] and [added_entities.add] are reached. *)
Definition async_add_image_entity (hub : Hub) (st : SetupState)
    (tag_mac : string) : result unit * SetupState :=
  if bool_decide (tag_mac ∈ added_entities st) then (Return (), st)
  else if bool_decide (tag_mac = "ap")
          || bool_decide (tag_mac ∈ get_blacklisted_tags hub)
  then (Return (), st)
  else
    match __init__ hub tag_mac with
    | Raise err => (Raise err, st)
    | Return entity =>
        (Return (),
         {| added_entities := {[ tag_mac ]} ∪ added_entities st;
            add_entities_calls := add_entities_calls st ++ [ [entity] ] |})
    end.

(** The loop [for tag_mac in hub.tags: async_add_image_entity(tag_mac)]
    over the tags that remain; an exception ends it. *)
Fixpoint add_image_entities (hub : Hub) (l : list string) (st : SetupState)
  : result unit * SetupState :=
  match l with
  | [] => (Return (), st)
  | tag_mac :: l =>
      match async_add_image_entity hub st tag_mac with
      | (Return _, st) => add_image_entities hub l st
      | (Raise err, st) => (Raise err, st)
      end
  end.

(** The loop over [hub.tags], started from the empty set
    [added_entities]. *)
Definition startup_enumeration (hub : Hub) : result unit * SetupState :=
  add_image_entities hub (tags hub)
    {| added_entities := ∅; add_entities_calls := [] |}.

(** *** [async_setup_entry]

    The outcome and the world it leaves.  When the enumeration raises,
    the exception leaves [async_setup_entry] before the closure is
    connected to the dispatcher. *)
Definition async_setup_entry (w : World) : result unit * World :=
  match startup_enumeration (w_hub w) with
  | (Raise err, st) => (Raise err, set_w_setup w st)
  | (Return _, st) =>
      let '(bus, h) :=
        async_dispatcher_connect (w_bus w) (DOMAIN +:+ "_tag_discovered")
          AddImageEntity in
      (Return (),
       {| w_hub := w_hub w; w_bus := bus; w_objects := w_objects w;
          w_setup := st; w_on_unload := w_on_unload w ++ [h];
          w_states := w_states w |})
  end.

(** Delivery of a signal to one target.  An exception raised by the
    target, such as the [TypeError] of a call with the wrong number of
    arguments, is caught and logged by the dispatcher: the state the
    target left stays, and nothing else happens. *)
Definition call_target (args : list string) (w : World) (tgt : target)
  : World :=
  match tgt, args with
  | AddImageEntity, [tag_mac] =>
      set_w_setup w
        (async_add_image_entity (w_hub w) (w_setup w) tag_mac).2
  | WriteHaState ref, [] => async_write_ha_state ref w
  | HandleBlacklistUpdate ref, [] => _handle_blacklist_update ref w
  | _, _ => w
  end.

(** [async_dispatcher_send(hass, signal, *args)] *)
Definition async_dispatcher_send (w : World) (signal : string)
    (args : list string) : World :=
  fold_left (call_target args) (listeners (w_bus w) signal) w.

Definition perform (w : World) (a : action) : World :=
  match a with
  | HubUpdate hub => set_w_hub w hub
  | DispatcherSend signal args => async_dispatcher_send w signal args
  | AddedToHass ref =>
      match w_objects w !! ref with
      | Some self =>
          let '(self, bus) := async_added_to_hass ref self (w_bus w) in
          set_w_entity w ref self bus
      | None => w
      end
  | Removed ref =>
      match w_objects w !! ref with
      | Some self =>
          let '(self, bus) := async_remove self (w_bus w) in
          set_w_entity w ref self bus
      | None => w
      end
  end.

Definition run (w : World) (acts : list action) : World :=
  fold_left perform acts w.

(** The path [async_image] works with: the cached one, or the one derived
    from the namespaced key when nothing is cached yet. *)
Definition resolved_path (hass : HomeAssistant)
    (self : OpenEPaperLinkImageEntity) : string :=
  match _image_path self with
  | None => get_image_path hass (DOMAIN +:+ "." +:+ _tag_mac self)
  | Some p => p
  end.

(** Successive calls of [async_image] on one entity, each with the host
    and the file system of its time; the outcomes are dropped. *)
Definition async_image_calls
    (calls : list (HomeAssistant * gmap string node))
    (self : OpenEPaperLinkImageEntity) (log : list LogRecord)
  : OpenEPaperLinkImageEntity * list LogRecord :=
  fold_left
    (λ acc call,
       let '(_, self, log) := async_image call.1 call.2 acc.1 acc.2 in
       (self, log))
    calls (self, log).

End Model.

Arguments ImageEntity_init : simpl never.
Arguments __init__ : simpl never.

(** ** A concrete installation, used to run the model *)

Definition example_integration : Integration := {|
  DOMAIN := "open_epaper_link";
  SIGNAL_TAG_IMAGE_UPDATE := "open_epaper_link_tag_image_update";
  get_hw_string :=
    λ hw_type,
      match hw_type with
      | VInt 0 => "unknown"
      | VInt _ => "M2 2.9 inch"
      | VStr s => s
      end;
  HomeAssistant := string;
  get_image_path :=
    λ config_dir key, config_dir +:+ "/www/open_epaper_link/" +:+ key +:+ ".jpg";
|}.

(** Three tags and the access point; ["BB02"] is blacklisted, and the hub
    has no record for ["CC03"]. *)
Definition example_hub : Hub := {|
  online := true;
  tags := ["AA01"; "ap"; "BB02"; "CC03"];
  get_blacklisted_tags := {[ "BB02" ]};
  get_tag_data :=
    λ tag_mac,
      if decide (tag_mac = "AA01")
      then {[ "hw_type" := VInt 1; "tag_name" := VStr "Kitchen" ]}
      else ∅;
|}.

Definition example_image : list Byte.byte :=
  [Byte.xff; Byte.xd8; Byte.xff; Byte.xe0].

(** The image of ["AA01"] is readable, that of ["BB02"] is not, and there
    is none for ["CC03"]. *)
Definition example_fs : gmap string node :=
  {[ "/config/www/open_epaper_link/open_epaper_link.AA01.jpg"
       := File example_image true;
     "/config/www/open_epaper_link/open_epaper_link.BB02.jpg"
       := File example_image false;
     "/config/www" := Directory ]}.

Definition example_world : World := {|
  w_hub := example_hub;
  w_bus := {| connections := []; next_handle := 0 |};
  w_objects :=
    {[ 7 := {| _tag_mac := "AA01";
               _attr_unique_id := "AA01_content";
               _attr_device_info :=
                 {| identifiers := {[ ("open_epaper_link", "AA01") ]};
                    name := VStr "Kitchen";
                    manufacturer := "OpenEPaperLink";
                    model := "M2 2.9 inch";
                    via_device := ("open_epaper_link", "ap") |};
               _image_path := None;
               entity_id := Some "image.kitchen_content";
               _on_remove := [] |} ]};
  w_setup := {| added_entities := ∅; add_entities_calls := [] |};
  w_on_unload := [];
  w_states := [];
|}.

(** The entity stored under reference 7 in [example_world]. *)
Definition example_entity : OpenEPaperLinkImageEntity :=
  {| _tag_mac := "AA01";
     _attr_unique_id := "AA01_content";
     _attr_device_info :=
       {| identifiers := {[ ("open_epaper_link", "AA01") ]};
          name := VStr "Kitchen";
          manufacturer := "OpenEPaperLink";
          model := "M2 2.9 inch";
          via_device := ("open_epaper_link", "ap") |};
     _image_path := None;
     entity_id := Some "image.kitchen_content";
     _on_remove := [] |}.

(** An entity for a tag, with the fields the constructor's assignments
    give it for a tag without record. *)
Definition example_entity_for (tag_mac : string)
  : OpenEPaperLinkImageEntity :=
  {| _tag_mac := tag_mac;
     _attr_unique_id := tag_mac +:+ "_content";
     _attr_device_info :=
       {| identifiers := {[ ("open_epaper_link", tag_mac) ]};
          name := VStr tag_mac;
          manufacturer := "OpenEPaperLink";
          model := "unknown";
          via_device := ("open_epaper_link", "ap") |};
     _image_path := None;
     entity_id := None;
     _on_remove := [] |}.

(** A setup state in which ["AA01"] is tracked. *)
Definition example_setup_state : SetupState :=
  {| added_entities := {[ "AA01" ]};
     add_entities_calls := [ [example_entity] ] |}.

(** The hub of the example offline, and with an empty blacklist. *)
Definition example_hub_offline : Hub :=
  {| online := false; tags := tags example_hub;
     get_blacklisted_tags := ∅;
     get_tag_data := get_tag_data example_hub |}.

Definition example_hub_cleared : Hub :=
  {| online := true; tags := tags example_hub;
     get_blacklisted_tags := ∅;
     get_tag_data := get_tag_data example_hub |}.

(** A hub that lists no tag for which an entity would be created, and a
    world around it. *)
Definition example_hub_quiet : Hub :=
  {| online := true; tags := ["ap"; "BB02"];
     get_blacklisted_tags := {[ "BB02" ]};
     get_tag_data := λ _, ∅ |}.

Definition example_world_quiet : World :=
  {| w_hub := example_hub_quiet;
     w_bus := {| connections := []; next_handle := 0 |};
     w_objects := ∅;
     w_setup := {| added_entities := ∅; add_entities_calls := [] |};
     w_on_unload := [];
     w_states := [] |}.

(** What happens while the entity 7 is attached, and after its removal. *)
Definition example_between : list action :=
  [DispatcherSend "open_epaper_link_blacklist_update" [];
   HubUpdate example_hub_offline;
   DispatcherSend "open_epaper_link_tag_image_update_AA01" []].

Definition example_after : list action :=
  [DispatcherSend "open_epaper_link_connection_status" [];
   DispatcherSend "open_epaper_link_blacklist_update" [];
   HubUpdate example_hub;
   DispatcherSend "open_epaper_link_tag_image_update_AA01" []].

Section Properties.

Context {integration : Integration}.

(** ** Properties of the image entity *)

Lemma open_rb_read_OSError fs path err :
  open_rb_read fs path = Raise err → is_OSError err = true.
Proof.
  unfold open_rb_read.
  destruct (fs !! path) as [[content [|]|]|]; intros H;
    inversion H; subst; reflexivity.
Qed.

Lemma async_image_entity hass fs self log :
  (async_image hass fs self log).1.2
  = set_image_path self (Some (resolved_path hass self)).
Proof.
  unfold async_image, resolved_path, async_add_executor_job.
  destruct self as [mac uid info [p|] eid rem]; simpl;
    repeat case_match; reflexivity.
Qed.

Lemma async_image_cached hass fs self log p :
  _image_path self = Some p →
  (async_image hass fs self log).1.2 = self.
Proof.
  intros Hp. rewrite async_image_entity. unfold resolved_path.
  rewrite Hp. destruct self; simpl in *; by subst.
Qed.

(** C1: [available] is true exactly when the hub reports connected, the
    tag identifier is among the hub's known tags and it is not
    blacklisted.  The value is a function of the hub state given at the
    query and of the entity's identifier alone: the entity stores no
    availability flag, so two entities for the same tag, whatever their
    other fields, answer alike. *)
Theorem available_spec (hub : Hub) (self : OpenEPaperLinkImageEntity) :
  (available hub self = true ↔
     online hub = true
     ∧ _tag_mac self ∈ tags hub
     ∧ _tag_mac self ∉ get_blacklisted_tags hub)
  ∧ (∀ other : OpenEPaperLinkImageEntity,
       _tag_mac other = _tag_mac self →
       available hub other = available hub self).
Proof.
  split.
  - unfold available.
    rewrite !andb_true_iff, negb_true_iff, bool_decide_eq_true,
      bool_decide_eq_false.
    tauto.
  - intros other Heq. unfold available. by rewrite Heq.
Qed.

(** C2 (amended): when the resolved image path names an existing file
    that can be read, [async_image] returns exactly the file's contents;
    nothing is logged. *)
Theorem async_image_readable_file hass fs self log content :
  fs !! resolved_path hass self = Some (File content true) →
  async_image hass fs self log
  = (Return (Some content),
     set_image_path self (Some (resolved_path hass self)), log).
Proof.
  intros Hfile.
  unfold async_image, resolved_path, os_path_exists, open_rb_read,
    async_add_executor_job in *.
  destruct self as [mac uid info [p|] eid rem]; simpl in *;
    rewrite Hfile; rewrite bool_decide_eq_true_2 by eauto; reflexivity.
Qed.

(** C3: [async_image] never raises; and when the file exists but reading
    it fails with an [OSError], the failure is logged (one record, with
    the entity id and the error) and the outcome is [None]. *)
Theorem async_image_read_failure hass fs self log :
  (∃ image, (async_image hass fs self log).1.1 = Return image)
  ∧ (∀ err,
       os_path_exists fs (resolved_path hass self) = true →
       open_rb_read fs (resolved_path hass self) = Raise err →
       is_OSError err = true →
       async_image hass fs self log
       = (Return None,
          set_image_path self (Some (resolved_path hass self)),
          log ++ [ {| log_entity_id := entity_id self;
                      log_err := err |} ])).
Proof.
  split.
  - unfold async_image, async_add_executor_job.
    destruct (match _image_path self with
              | None => _ | Some p => _ end) as [self' path].
    destruct (negb (os_path_exists fs path)); [by eexists|].
    destruct (open_rb_read fs path) as [content|err] eqn:Hread;
      [by eexists|].
    rewrite (open_rb_read_OSError _ _ _ Hread). by eexists.
  - intros err Hex Hread Hos.
    unfold async_image, resolved_path, async_add_executor_job in *.
    destruct self as [mac uid info [p|] eid rem]; simpl in *;
      rewrite Hex, Hread, Hos; reflexivity.
Qed.

(** C4: when the resolved image path names nothing, [async_image] returns
    [None]: it does not raise, does not read and does not log. *)
Theorem async_image_missing_file hass fs self log :
  fs !! resolved_path hass self = None →
  async_image hass fs self log
  = (Return None,
     set_image_path self (Some (resolved_path hass self)), log).
Proof.
  intros Hnone.
  assert (os_path_exists fs (resolved_path hass self) = false) as Hex.
  { unfold os_path_exists. apply bool_decide_eq_false_2.
    rewrite Hnone. by intros [? ?]. }
  unfold async_image, resolved_path in *.
  destruct self as [mac uid info [p|] eid rem]; simpl in *;
    rewrite Hex; reflexivity.
Qed.

Lemma async_image_calls_cached calls self log p :
  _image_path self = Some p →
  (async_image_calls calls self log).1 = self.
Proof.
  unfold async_image_calls.
  revert log. induction calls as [|[hass fs] calls IH]; intros log Hp;
    [done|].
  simpl.
  pose proof (async_image_cached hass fs self log p Hp) as Hsame.
  destruct (async_image hass fs self log) as [[r self'] log']; simpl in *.
  subst self'. by apply IH.
Qed.

(** C9: on an entity whose path is not resolved yet, the first call of
    [async_image] stores the path derived from [DOMAIN + "." + tag_mac]
    by the host of that call; whatever calls follow, with whatever host
    and file system, the entity is that same record: the stored path does
    not change and no other field is modified. *)
Theorem async_image_path_cached hass fs calls self log :
  _image_path self = None →
  (async_image_calls ((hass, fs) :: calls) self log).1
  = set_image_path self
      (Some (get_image_path hass (DOMAIN +:+ "." +:+ _tag_mac self))).
Proof.
  intros Hnone. unfold async_image_calls. simpl.
  pose proof (async_image_entity hass fs self log) as Hent.
  destruct (async_image hass fs self log) as [[r self'] log']; simpl in *.
  unfold resolved_path in Hent. rewrite Hnone in Hent. subst self'.
  by eapply async_image_calls_cached.
Qed.

(** ** Properties of the constructor and of the setup routine *)

Lemma init_returns hub tag_mac entity :
  __init__ hub tag_mac = Return entity →
  _tag_mac entity = tag_mac
  ∧ _attr_unique_id entity = tag_mac +:+ "_content".
Proof.
  unfold __init__. destruct (ImageEntity_init None) as [u|err];
    intros Heq; inversion Heq; by subst.
Qed.

(** C10: the constructor does not succeed.  Its first statement calls the
    host's constructor without the required [hass], so for every hub and
    every tag, whatever the tag record holds, it raises [TypeError] before
    the record is read, and no entity is built. *)
Theorem init_raises_type_error (hub : Hub) (tag_mac : string) :
  __init__ hub tag_mac = Raise TypeError
  ∧ ∀ entity, __init__ hub tag_mac ≠ Return entity.
Proof.
  assert (__init__ hub tag_mac = Raise TypeError) as Hraise by reflexivity.
  split; [done|]. intros entity Heq. rewrite Hraise in Heq. discriminate.
Qed.

Lemma add_image_entity_cases hub st tag_mac :
  (async_add_image_entity hub st tag_mac = (Return (), st)
   ∧ (tag_mac ∈ added_entities st ∨ tag_mac = "ap"
      ∨ tag_mac ∈ get_blacklisted_tags hub))
  ∨ ((∃ err, __init__ hub tag_mac = Raise err
             ∧ async_add_image_entity hub st tag_mac = (Raise err, st))
     ∧ (tag_mac ∉ added_entities st) ∧ (tag_mac ≠ "ap")
     ∧ (tag_mac ∉ get_blacklisted_tags hub))
  ∨ ((∃ entity, __init__ hub tag_mac = Return entity
                ∧ async_add_image_entity hub st tag_mac
                  = (Return (),
                     {| added_entities := {[ tag_mac ]} ∪ added_entities st;
                        add_entities_calls :=
                          add_entities_calls st ++ [ [entity] ] |}))
     ∧ (tag_mac ∉ added_entities st) ∧ (tag_mac ≠ "ap")
     ∧ (tag_mac ∉ get_blacklisted_tags hub)).
Proof.
  unfold async_add_image_entity.
  destruct (bool_decide_reflect (tag_mac ∈ added_entities st)); [by auto|].
  destruct (bool_decide_reflect (tag_mac = "ap")); cbn [orb]; [by auto|].
  destruct (bool_decide_reflect (tag_mac ∈ get_blacklisted_tags hub));
    [by auto|].
  right. destruct (__init__ hub tag_mac) as [entity|err] eqn:Hinit.
  - right. split; [by exists entity|done].
  - left. split; [by exists err|done].
Qed.

Lemma registered_snoc st entity :
  registered
    {| added_entities := {[ _tag_mac entity ]} ∪ added_entities st;
       add_entities_calls := add_entities_calls st ++ [ [entity] ] |}
  = registered st ++ [entity].
Proof. unfold registered. simpl. by rewrite concat_app. Qed.

(** A property of the setup state that the closure preserves holds in
    every state the platform reaches. *)
Lemma setup_state_run (P : SetupState → Prop) :
  (∀ hub st tag_mac, P st → P (async_add_image_entity hub st tag_mac).2) →
  ∀ w acts, P (w_setup w) → P (w_setup (run w acts)).
Proof.
  intros Hadd w acts. unfold run. revert w.
  induction acts as [|a acts IH]; intros w HP; [done|].
  simpl. apply IH.
  destruct a as [hub|signal args|ref|ref]; cbn [perform].
  - done.
  - unfold async_dispatcher_send.
    generalize (listeners (w_bus w) signal) as l. intros l.
    revert w HP. induction l as [|tgt l IHl]; intros w HP; [done|].
    simpl. apply IHl.
    unfold call_target, _handle_blacklist_update, async_write_ha_state.
    destruct tgt as [|r|r]; destruct args as [|x [|y args]]; simpl;
      try done; try (by apply Hadd); by destruct (w_objects w !! r).
  - destruct (w_objects w !! ref) as [self|]; [|done].
    by destruct (async_added_to_hass ref self (w_bus w)).
  - by destruct (w_objects w !! ref).
Qed.

Lemma setup_state_enumeration (P : SetupState → Prop) hub l st :
  (∀ hub st tag_mac, P st → P (async_add_image_entity hub st tag_mac).2) →
  P st → P (add_image_entities hub l st).2.
Proof.
  intros Hadd. revert st. induction l as [|m l IH]; intros st Hst; [done|].
  simpl. specialize (Hadd hub st m Hst).
  destruct (async_add_image_entity hub st m) as [[u|err] st']; simpl in *;
    [by apply IH|done].
Qed.

Lemma setup_entry_state w :
  w_setup (async_setup_entry w).2 = (startup_enumeration (w_hub w)).2.
Proof.
  unfold async_setup_entry.
  by destruct (startup_enumeration (w_hub w)) as [[u|err] st].
Qed.

Lemma setup_state_loaded (P : SetupState → Prop) :
  P {| added_entities := ∅; add_entities_calls := [] |} →
  (∀ hub st tag_mac, P st → P (async_add_image_entity hub st tag_mac).2) →
  ∀ w acts, P (w_setup (run (async_setup_entry w).2 acts)).
Proof.
  intros Hempty Hadd w acts. apply setup_state_run; [done|].
  rewrite setup_entry_state. unfold startup_enumeration.
  by apply setup_state_enumeration.
Qed.

Lemma setup_inv_empty :
  setup_inv {| added_entities := ∅; add_entities_calls := [] |}.
Proof.
  unfold setup_inv, registered. simpl.
  split; [constructor|]. split; [|apply not_elem_of_empty].
  intros m. rewrite elem_of_empty. split; [by intros ?%elem_of_nil|done].
Qed.

Lemma setup_inv_add hub st tag_mac :
  setup_inv st → setup_inv (async_add_image_entity hub st tag_mac).2.
Proof.
  intros (Hnd & Hagree & Hap).
  destruct (add_image_entity_cases hub st tag_mac)
    as [[-> _]|[[(err & _ & ->) _]
               |[(entity & Hinit & ->) (Hfresh & Hnap & _)]]];
    [done..|].
  apply init_returns in Hinit as [Hmac _]. subst tag_mac.
  unfold setup_inv. cbn [snd].
  rewrite registered_snoc, fmap_app. cbn [added_entities fmap list_fmap].
  split; [|split].
  - apply NoDup_app. split; [done|]. split; [|apply NoDup_singleton].
    intros m Hm ->%list_elem_of_singleton. by apply Hfresh, Hagree.
  - intros m.
    rewrite elem_of_app, list_elem_of_singleton, Hagree, elem_of_union,
      elem_of_singleton.
    tauto.
  - rewrite elem_of_union, elem_of_singleton. intros [Heq|Hin]; [|done].
    by apply Hnap.
Qed.

Lemma setup_inv_startup hub : setup_inv (startup_enumeration hub).2.
Proof.
  apply (setup_state_enumeration setup_inv);
    [apply setup_inv_add | apply setup_inv_empty].
Qed.

Lemma setup_inv_loaded w acts :
  setup_inv (w_setup (run (async_setup_entry w).2 acts)).
Proof.
  apply (setup_state_loaded setup_inv);
    [apply setup_inv_empty | apply setup_inv_add].
Qed.

(** C5: adding a tag that is already in the tracking set changes
    nothing: the call returns, with the same tracking set and the same
    list of registration calls, hence no new entity.  And in every state
    the platform reaches after setup, the entities handed to the host have
    pairwise distinct tag identifiers. *)
Theorem add_image_entity_idempotent :
  (∀ hub st tag_mac,
     tag_mac ∈ added_entities st →
     async_add_image_entity hub st tag_mac = (Return (), st))
  ∧ (∀ w acts,
       NoDup (_tag_mac <$>
              registered (w_setup (run (async_setup_entry w).2 acts)))).
Proof.
  split.
  - intros hub st tag_mac Hin. unfold async_add_image_entity.
    by rewrite bool_decide_eq_true_2.
  - intros w acts. by destruct (setup_inv_loaded w acts) as (? & _).
Qed.

(** C7: the add-entity path never does anything for ["ap"]: the call
    returns and leaves the state as it was; and in every state the
    platform reaches after setup ["ap"] is neither tracked nor the tag of
    a registered entity. *)
Theorem access_point_never_added :
  (∀ hub st, async_add_image_entity hub st "ap" = (Return (), st))
  ∧ (∀ w acts,
       ("ap" ∉ added_entities (w_setup (run (async_setup_entry w).2 acts)))
       ∧ ("ap" ∉ _tag_mac <$>
                 registered (w_setup (run (async_setup_entry w).2 acts)))).
Proof.
  split.
  - intros hub st. unfold async_add_image_entity.
    by destruct (bool_decide ("ap" ∈ added_entities st)).
  - intros w acts.
    destruct (setup_inv_loaded w acts) as (_ & Hagree & Hap).
    split; [done|]. by rewrite Hagree.
Qed.

(** *** Delivery of signals *)

Lemma listeners_targets bus signal tgt :
  tgt ∈ listeners bus signal → tgt ∈ conn_target <$> connections bus.
Proof.
  unfold listeners. intros (c & -> & Hc)%list_elem_of_fmap.
  apply list_elem_of_filter in Hc as [_ Hc].
  by apply list_elem_of_fmap_2.
Qed.

(** No target changes the hub, the dispatcher's table or the objects. *)
Lemma call_target_frame args w tgt :
  w_objects (call_target args w tgt) = w_objects w
  ∧ w_hub (call_target args w tgt) = w_hub w
  ∧ w_bus (call_target args w tgt) = w_bus w.
Proof.
  unfold call_target, _handle_blacklist_update, async_write_ha_state.
  destruct tgt as [|r|r]; destruct args as [|x [|y args]]; simpl;
    try done; by destruct (w_objects w !! r).
Qed.

Lemma fold_call_target_frame args l w :
  w_objects (fold_left (call_target args) l w) = w_objects w
  ∧ w_hub (fold_left (call_target args) l w) = w_hub w
  ∧ w_bus (fold_left (call_target args) l w) = w_bus w.
Proof.
  revert w. induction l as [|tgt l IH]; intros w; [done|].
  simpl. destruct (IH (call_target args w tgt)) as (-> & -> & ->).
  apply call_target_frame.
Qed.

(** Only the closure of the setup routine touches the setup state. *)
Lemma call_target_setup args w tgt :
  tgt ≠ AddImageEntity →
  w_setup (call_target args w tgt) = w_setup w.
Proof.
  intros Hne. unfold call_target, _handle_blacklist_update,
    async_write_ha_state.
  destruct tgt as [|ref|ref]; [done| |];
    destruct args; try done; by destruct (w_objects w !! ref).
Qed.

Lemma fold_call_target_setup args l w :
  AddImageEntity ∉ l →
  w_setup (fold_left (call_target args) l w) = w_setup w.
Proof.
  revert w. induction l as [|tgt l IH]; intros w Hnot; [done|].
  simpl. apply not_elem_of_cons in Hnot as [Hne Hnot].
  rewrite (IH _ Hnot). by apply call_target_setup.
Qed.

Lemma startup_skips_blacklisted hub l st tag_mac :
  tag_mac ∈ get_blacklisted_tags hub →
  tag_mac ∉ added_entities st →
  tag_mac ∉ added_entities (add_image_entities hub l st).2.
Proof.
  intros Hbl. revert st. induction l as [|m l IH]; intros st Hst; [done|].
  simpl.
  destruct (add_image_entity_cases hub st m)
    as [[-> _]|[[(err & _ & ->) _]|[(entity & _ & ->) (_ & _ & Hm)]]].
  - by apply IH.
  - done.
  - apply IH. simpl. rewrite elem_of_union, elem_of_singleton.
    intros [->|Hin]; by auto.
Qed.

(** The constructor raises, so the closure leaves the state it finds. *)
Lemma add_image_entity_state hub st tag_mac :
  (async_add_image_entity hub st tag_mac).2 = st.
Proof.
  destruct (add_image_entity_cases hub st tag_mac)
    as [[-> _]|[[(err & _ & ->) _]|[(entity & Hinit & _) _]]]; [done..|].
  discriminate Hinit.
Qed.

Lemma setup_state_constant w acts : w_setup (run w acts) = w_setup w.
Proof.
  apply (setup_state_run (λ st, st = w_setup w)); [|done].
  intros hub st tag_mac ->. apply add_image_entity_state.
Qed.

(** C6: a tag that is blacklisted when the platform is set up gets no
    entity from the startup enumeration and is not put in the tracking
    set.  Once the hub no longer blacklists it, the add-entity path does
    not create an entity for it either: the constructor raises
    [TypeError], the closure leaves its state untouched, and whatever
    signals are sent afterwards, tag-discovered ones included, the setup
    state stays what it was after setup. *)
Theorem discovery_after_blacklist_raises (w : World) (tag_mac : string) :
  tag_mac ∈ get_blacklisted_tags (w_hub w) →
  let w1 := (async_setup_entry w).2 in
  (tag_mac ∉ added_entities (w_setup w1))
  ∧ (tag_mac ∉ _tag_mac <$> registered (w_setup w1))
  ∧ ∀ hub',
      tag_mac ≠ "ap" →
      tag_mac ∉ get_blacklisted_tags hub' →
      async_add_image_entity hub' (w_setup w1) tag_mac
      = (Raise TypeError, w_setup w1)
      ∧ ∀ acts, w_setup (run (set_w_hub w1 hub') acts) = w_setup w1.
Proof.
  intros Hbl w1.
  assert (tag_mac ∉ added_entities (w_setup w1)) as Hnot.
  { unfold w1. rewrite setup_entry_state. unfold startup_enumeration.
    apply startup_skips_blacklisted; [done|]. apply not_elem_of_empty. }
  split; [done|]. split.
  { pose proof (setup_inv_startup (w_hub w)) as (_ & Hagree & _).
    unfold w1. rewrite setup_entry_state. rewrite Hagree.
    by rewrite <- setup_entry_state. }
  intros hub' Hnap Hbl'. split.
  - destruct (add_image_entity_cases hub' (w_setup w1) tag_mac)
      as [[_ [?|[?|?]]]|[[(err & Hinit & ->) _]|[(entity & Hinit & _) _]]];
      try done; try discriminate Hinit.
    assert (__init__ hub' tag_mac = Raise TypeError) as Hraise
      by reflexivity.
    rewrite Hraise in Hinit. by inversion Hinit.
  - intros acts. by rewrite setup_state_constant.
Qed.

(** ** Subscriptions of an entity *)

Lemma async_added_to_hass_eq ref self bus :
  async_added_to_hass ref self bus
  = (set_on_remove self
       (_on_remove self
        ++ [next_handle bus; S (next_handle bus);
            S (S (next_handle bus))]),
     {| connections :=
          connections bus
          ++ [ {| conn_handle := next_handle bus;
                  conn_signal :=
                    SIGNAL_TAG_IMAGE_UPDATE +:+ "_" +:+ _tag_mac self;
                  conn_target := WriteHaState ref |};
               {| conn_handle := S (next_handle bus);
                  conn_signal := DOMAIN +:+ "_connection_status";
                  conn_target := WriteHaState ref |};
               {| conn_handle := S (S (next_handle bus));
                  conn_signal := DOMAIN +:+ "_blacklist_update";
                  conn_target := HandleBlacklistUpdate ref |} ];
        next_handle := S (S (S (next_handle bus))) |}).
Proof.
  unfold async_added_to_hass, async_dispatcher_connect, async_on_remove,
    set_on_remove.
  simpl. by rewrite <- !app_assoc.
Qed.

Lemma remove_dispatchers_connections hs bus :
  connections (fold_left remove_dispatcher hs bus)
  = filter (λ c, conn_handle c ∉ hs) (connections bus).
Proof.
  revert bus. induction hs as [|h hs IH]; intros bus; simpl.
  - induction (connections bus) as [|c l IHl]; [done|].
    rewrite filter_cons_True by apply not_elem_of_nil.
    by rewrite <- IHl.
  - rewrite IH. unfold remove_dispatcher. simpl.
    rewrite list_filter_filter. apply list_filter_iff.
    intros c. rewrite not_elem_of_cons. tauto.
Qed.

Lemma remove_dispatchers_next hs bus :
  next_handle (fold_left remove_dispatcher hs bus) = next_handle bus.
Proof.
  revert bus. induction hs as [|h hs IH]; intros bus; [done|].
  simpl. by rewrite IH.
Qed.

Lemma elem_of_rev (h : nat) (l : list nat) : h ∈ rev l ↔ h ∈ l.
Proof. rewrite !list_elem_of_In. symmetry. apply in_rev. Qed.

Lemma filter_keep_all {A} (P : A → Prop) `{!∀ x, Decision (P x)}
    (l : list A) :
  (∀ x, x ∈ l → P x) → filter P l = l.
Proof.
  induction l as [|x l IH]; intros HP; [done|].
  rewrite filter_cons_True by (apply HP; by left).
  rewrite IH; [done|]. intros y Hy. apply HP. by right.
Qed.

Lemma call_target_other ref args w tgt :
  ¬ target_of ref tgt →
  states_of ref (call_target args w tgt) = states_of ref w.
Proof.
  intros Hnot. unfold call_target, _handle_blacklist_update,
    async_write_ha_state, states_of.
  destruct tgt as [|r|r]; destruct args as [|a [|b args]]; simpl;
    try done;
    (destruct (w_objects w !! r) as [self|]; [|done]); simpl;
    rewrite filter_app, filter_cons_False, filter_nil, app_nil_r;
    try done; simpl; intros ->; apply Hnot; unfold target_of; by auto.
Qed.

Lemma send_other ref w signal args :
  unsubscribed ref (w_bus w) →
  states_of ref (async_dispatcher_send w signal args) = states_of ref w.
Proof.
  intros Hun. unfold async_dispatcher_send.
  assert (∀ tgt, tgt ∈ listeners (w_bus w) signal → ¬ target_of ref tgt)
    as Hl.
  { intros tgt (c & -> & Hc)%listeners_targets%list_elem_of_fmap.
    by apply Hun. }
  revert Hl. generalize (listeners (w_bus w) signal) as l.
  intros l. revert w Hun. induction l as [|tgt l IH]; intros w Hun Hl;
    [done|].
  simpl. rewrite IH.
  - apply call_target_other, Hl. by left.
  - by destruct (call_target_frame args w tgt) as (_ & _ & ->).
  - intros t Ht. apply Hl. by right.
Qed.

Lemma send_frame w signal args :
  w_objects (async_dispatcher_send w signal args) = w_objects w
  ∧ w_hub (async_dispatcher_send w signal args) = w_hub w
  ∧ w_bus (async_dispatcher_send w signal args) = w_bus w.
Proof. apply fold_call_target_frame. Qed.

Lemma perform_added w ref self :
  w_objects w !! ref = Some self →
  perform w (AddedToHass ref)
  = set_w_entity w ref
      (set_on_remove self
         (_on_remove self
          ++ [next_handle (w_bus w); S (next_handle (w_bus w));
              S (S (next_handle (w_bus w)))]))
      (async_added_to_hass ref self (w_bus w)).2.
Proof.
  intros Hobj. cbn [perform]. rewrite Hobj.
  by rewrite !async_added_to_hass_eq.
Qed.

Lemma perform_removed w ref self :
  w_objects w !! ref = Some self →
  perform w (Removed ref)
  = set_w_entity w ref (set_on_remove self [])
      (fold_left remove_dispatcher (rev (_on_remove self)) (w_bus w)).
Proof. intros Hobj. cbn [perform]. by rewrite Hobj. Qed.

Lemma perform_other ref w a :
  a ≠ AddedToHass ref →
  unsubscribed ref (w_bus w) →
  states_of ref (perform w a) = states_of ref w
  ∧ unsubscribed ref (w_bus (perform w a)).
Proof.
  intros Hne Hun. destruct a as [hub|signal args|r|r]; cbn [perform].
  - done.
  - split; [by apply send_other|].
    by destruct (send_frame w signal args) as (_ & _ & ->).
  - destruct (w_objects w !! r) as [self|]; [|done].
    rewrite async_added_to_hass_eq. simpl. split; [done|].
    intros c. simpl.
    rewrite elem_of_app, !elem_of_cons, elem_of_nil.
    intros [Hc|[->|[->|[->|[]]]]]; [by apply Hun|..]; simpl;
      intros [Heq|Heq]; inversion Heq; by subst.
  - destruct (w_objects w !! r) as [self|]; [|done].
    unfold async_remove. simpl. split; [done|].
    intros c. simpl. rewrite remove_dispatchers_connections.
    intros [_ Hc]%list_elem_of_filter. by apply Hun.
Qed.

Lemma run_other ref acts w :
  AddedToHass ref ∉ acts →
  unsubscribed ref (w_bus w) →
  states_of ref (run w acts) = states_of ref w.
Proof.
  unfold run. revert w. induction acts as [|a acts IH]; intros w Hnot Hun;
    [done|].
  apply not_elem_of_cons in Hnot as [Hne Hnot].
  simpl.
  destruct (perform_other ref w a) as [Hs Hun']; [done..|].
  rewrite IH; done.
Qed.

(** Attaching a fresh entity establishes [attached]. *)
Lemma attached_after_attach w ref self :
  w_objects w !! ref = Some self →
  _on_remove self = [] →
  (∀ c, c ∈ connections (w_bus w) → conn_handle c < next_handle (w_bus w)) →
  unsubscribed ref (w_bus w) →
  attached ref
    (set_on_remove self
       [next_handle (w_bus w); S (next_handle (w_bus w));
        S (S (next_handle (w_bus w)))])
    (next_handle (w_bus w)) (perform w (AddedToHass ref)).
Proof.
  intros Hobj Hrem Hwf Hun.
  rewrite (perform_added w ref self Hobj), Hrem, async_added_to_hass_eq.
  unfold attached. cbn [set_w_entity w_objects w_bus snd connections
                         next_handle app].
  split; [apply lookup_insert_eq|]. split; [done|]. split; [|lia].
  intros c [Hc|Hc]%elem_of_app.
  { split; [intros Ht; by destruct (Hun c Hc)|].
    specialize (Hwf c Hc). rewrite !elem_of_cons, elem_of_nil. lia. }
  rewrite !elem_of_cons, elem_of_nil in Hc.
  destruct Hc as [->|[->|[->|[]]]]; cbn [conn_target conn_handle];
    rewrite !elem_of_cons; unfold target_of; tauto.
Qed.

(** Nothing but the attachment and the removal of the entity itself
    disturbs [attached]: not a signal and the handlers it runs, not a hub
    update, not the attachment or removal of another entity. *)
Lemma attached_perform ref self n w a :
  a ≠ AddedToHass ref → a ≠ Removed ref →
  attached ref self n w → attached ref self n (perform w a).
Proof.
  intros Hna Hnr (Hobj & Hrem & Hconn & Hnext).
  destruct a as [hub|signal args|r|r]; cbn [perform].
  - done.
  - destruct (send_frame w signal args) as (Ho & _ & Hb).
    unfold attached. by rewrite Ho, Hb.
  - assert (r ≠ ref) as Hr by congruence.
    destruct (w_objects w !! r) as [other|] eqn:Hother;
      [|by unfold attached].
    rewrite async_added_to_hass_eq.
    unfold attached. cbn [set_w_entity w_objects w_bus connections
                           next_handle].
    split; [by rewrite lookup_insert_ne|]. split; [done|].
    split; [|lia].
    intros c [Hc|Hc]%elem_of_app; [by apply Hconn|].
    rewrite !elem_of_cons, elem_of_nil in Hc.
    destruct Hc as [->|[->|[->|[]]]]; cbn [conn_target conn_handle];
      rewrite !elem_of_cons, elem_of_nil;
      (split; [intros [Heq|Heq]; inversion Heq; by subst | lia]).
  - assert (r ≠ ref) as Hr by congruence.
    destruct (w_objects w !! r) as [other|] eqn:Hother;
      [|by unfold attached].
    unfold async_remove, attached.
    cbn [set_w_entity w_objects w_bus].
    rewrite remove_dispatchers_connections, remove_dispatchers_next.
    split; [by rewrite lookup_insert_ne|]. split; [done|].
    split; [|done].
    intros c [_ Hc]%list_elem_of_filter. by apply Hconn.
Qed.

Lemma attached_run ref self n acts w :
  AddedToHass ref ∉ acts → Removed ref ∉ acts →
  attached ref self n w → attached ref self n (run w acts).
Proof.
  unfold run. revert w.
  induction acts as [|a acts IH]; intros w Hna Hnr Hatt; [done|].
  apply not_elem_of_cons in Hna as [Hna Hna'].
  apply not_elem_of_cons in Hnr as [Hnr Hnr'].
  simpl. apply IH; [done..|]. by apply attached_perform.
Qed.

(** Removing an attached entity removes the connections that lead to it,
    and no other. *)
Lemma removed_after_attached ref self n w :
  attached ref self n w →
  connections (w_bus (perform w (Removed ref)))
  = filter (λ c, ¬ target_of ref (conn_target c)) (connections (w_bus w))
  ∧ w_objects (perform w (Removed ref)) !! ref
    = Some (set_on_remove self [])
  ∧ states_of ref (perform w (Removed ref)) = states_of ref w.
Proof.
  intros (Hobj & Hrem & Hconn & _).
  rewrite (perform_removed w ref self Hobj).
  cbn [set_w_entity w_objects w_bus]. split; [|split].
  - rewrite remove_dispatchers_connections, Hrem.
    induction (connections (w_bus w)) as [|c l IH]; [done|].
    assert (conn_handle c ∉ rev [n; S n; S (S n)]
            ↔ ¬ target_of ref (conn_target c)) as Hc.
    { rewrite elem_of_rev, (Hconn c); [done|by left]. }
    rewrite !filter_cons.
    rewrite IH by (intros c' Hc'; apply Hconn; by right).
    destruct (decide (conn_handle c ∉ rev [n; S n; S (S n)])) as [Hd|Hd],
      (decide (¬ target_of ref (conn_target c))) as [Ht|Ht];
      tauto.
  - apply lookup_insert_eq.
  - done.
Qed.

(** C8: attaching a freshly constructed entity adds exactly three
    connections to the dispatcher: image-updated for its own tag,
    connection status and blacklist update, and keeps their three remove
    functions.  Whatever happens while it is attached (signals and the
    handlers they run, hub updates, other entities coming and going),
    removing the entity then calls the three remove functions: the
    connections that led to the entity are gone and all others are still
    there.  From then on, whatever signals are sent and whatever else
    happens (short of attaching the entity again), no state is written
    for the entity. *)
Theorem subscriptions_released (w : World) (ref : nat)
    (self : OpenEPaperLinkImageEntity) :
  w_objects w !! ref = Some self →
  _on_remove self = [] →
  (∀ c, c ∈ connections (w_bus w) → conn_handle c < next_handle (w_bus w)) →
  unsubscribed ref (w_bus w) →
  let n := next_handle (w_bus w) in
  let w1 := perform w (AddedToHass ref) in
  connections (w_bus w1)
  = connections (w_bus w)
    ++ [ {| conn_handle := n;
            conn_signal := SIGNAL_TAG_IMAGE_UPDATE +:+ "_" +:+ _tag_mac self;
            conn_target := WriteHaState ref |};
         {| conn_handle := S n;
            conn_signal := DOMAIN +:+ "_connection_status";
            conn_target := WriteHaState ref |};
         {| conn_handle := S (S n);
            conn_signal := DOMAIN +:+ "_blacklist_update";
            conn_target := HandleBlacklistUpdate ref |} ]
  ∧ w_objects w1 !! ref = Some (set_on_remove self [n; S n; S (S n)])
  ∧ ∀ between,
      AddedToHass ref ∉ between →
      Removed ref ∉ between →
      let w2 := perform (run w1 between) (Removed ref) in
      connections (w_bus w2)
      = filter (λ c, ¬ target_of ref (conn_target c))
          (connections (w_bus (run w1 between)))
      ∧ unsubscribed ref (w_bus w2)
      ∧ w_objects w2 !! ref = Some (set_on_remove self [])
      ∧ ∀ acts,
          AddedToHass ref ∉ acts →
          states_of ref (run w2 acts) = states_of ref (run w1 between).
Proof.
  intros Hobj Hrem Hwf Hun n w1.
  pose proof (attached_after_attach w ref self Hobj Hrem Hwf Hun) as Hatt.
  fold n in Hatt. fold w1 in Hatt.
  split; [|split].
  - unfold w1. rewrite (perform_added w ref self Hobj).
    cbn [set_w_entity w_bus]. by rewrite async_added_to_hass_eq.
  - by destruct Hatt as (? & _).
  - intros between Hna Hnr w2.
    pose proof (attached_run ref _ n between w1 Hna Hnr Hatt) as Hatt'.
    destruct (removed_after_attached ref _ n _ Hatt')
      as (Hconn & Hobj2 & Hstates).
    fold w2 in Hconn, Hobj2, Hstates.
    assert (unsubscribed ref (w_bus w2)) as Hun2.
    { intros c. rewrite Hconn. by intros [? _]%list_elem_of_filter. }
    split; [done|]. split; [done|]. split; [done|].
    intros acts Hnot. by rewrite run_other.
Qed.

(** ** Further properties of the setup routine *)

(** X4: in every state the platform reaches after setup, each call made
    to [async_add_entities] passed exactly one entity, and there are as
    many calls as tracked tags. *)
Theorem one_entity_per_call (w : World) (acts : list action) :
  Forall (λ call, length call = 1)
    (add_entities_calls (w_setup (run (async_setup_entry w).2 acts)))
  ∧ length (add_entities_calls (w_setup (run (async_setup_entry w).2 acts)))
    = size (added_entities (w_setup (run (async_setup_entry w).2 acts))).
Proof.
  apply (setup_state_loaded
           (λ st, Forall (λ call, length call = 1) (add_entities_calls st)
                  ∧ length (add_entities_calls st)
                    = size (added_entities st))).
  - cbn [add_entities_calls added_entities]. split; [constructor|].
    by rewrite size_empty.
  - intros hub st tag_mac [Hone Hlen].
    destruct (add_image_entity_cases hub st tag_mac)
      as [[-> _]|[[(err & _ & ->) _]
                 |[(entity & _ & ->) (Hfresh & _ & _)]]];
      [done..|].
    cbn [snd add_entities_calls added_entities]. split.
    + apply Forall_app. split; [done|]. by repeat constructor.
    + rewrite length_app, size_union, size_singleton by set_solver.
      simpl. lia.
Qed.

(** X5: nothing the platform does removes an entity or forgets a tag: the
    entities registered so far stay, in place, at the front of the list
    of registered entities, and the tracking set only grows. *)
Theorem registered_only_grows (w : World) (acts : list action) :
  registered (w_setup w) `prefix_of` registered (w_setup (run w acts))
  ∧ added_entities (w_setup w) ⊆ added_entities (w_setup (run w acts)).
Proof.
  apply (setup_state_run
           (λ st, registered (w_setup w) `prefix_of` registered st
                  ∧ added_entities (w_setup w) ⊆ added_entities st));
    [|done].
  intros hub st tag_mac [Hpre Hsub].
  destruct (add_image_entity_cases hub st tag_mac)
    as [[-> _]|[[(err & _ & ->) _]|[(entity & Hinit & ->) _]]];
    [done..|].
  apply init_returns in Hinit as [Hmac _]. subst tag_mac.
  cbn [snd]. rewrite registered_snoc. cbn [added_entities]. split.
  - by apply prefix_app_r.
  - set_solver.
Qed.

(** X8: delivering the same tag twice in a row to the closure, with the
    hub unchanged, has the outcome and the effect of delivering it
    once. *)
Theorem add_image_entity_twice (hub : Hub) (st : SetupState)
    (tag_mac : string) :
  async_add_image_entity hub (async_add_image_entity hub st tag_mac).2
    tag_mac
  = async_add_image_entity hub st tag_mac.
Proof.
  destruct (add_image_entity_cases hub st tag_mac)
    as [[Heq _]|[[(err & _ & Heq) _]|[(entity & _ & Heq) _]]].
  - by rewrite !Heq.
  - by rewrite !Heq.
  - rewrite Heq. unfold async_add_image_entity at 1. cbn [snd added_entities].
    rewrite bool_decide_eq_true_2; [done|]. set_solver.
Qed.

Lemma list_ascii_of_string_app (s t : string) :
  String.list_ascii_of_string (s +:+ t)
  = String.list_ascii_of_string s ++ String.list_ascii_of_string t.
Proof.
  induction s as [|a s IH]; [done|].
  change (String a s +:+ t) with (String a (s +:+ t)).
  simpl. by rewrite IH.
Qed.

Lemma string_app_inj_r (t s1 s2 : string) :
  s1 +:+ t = s2 +:+ t → s1 = s2.
Proof.
  intros Heq.
  apply (f_equal String.list_ascii_of_string) in Heq.
  rewrite !list_ascii_of_string_app in Heq.
  apply app_inv_tail in Heq.
  rewrite <- (String.string_of_list_ascii_of_string s1),
    <- (String.string_of_list_ascii_of_string s2).
  by rewrite Heq.
Qed.

(** X7: in every state the platform reaches after setup, the unique ids
    of the entities handed to the host are pairwise distinct. *)
Theorem unique_ids_distinct (w : World) (acts : list action) :
  NoDup (_attr_unique_id <$>
         registered (w_setup (run (async_setup_entry w).2 acts))).
Proof.
  assert (Forall (λ e, _attr_unique_id e = _tag_mac e +:+ "_content")
            (registered (w_setup (run (async_setup_entry w).2 acts))))
    as Hid.
  { apply (setup_state_loaded
             (λ st, Forall (λ e, _attr_unique_id e = _tag_mac e +:+ "_content")
                      (registered st))); [constructor|].
    intros hub st tag_mac Hst.
    destruct (add_image_entity_cases hub st tag_mac)
      as [[-> _]|[[(err & _ & ->) _]|[(entity & Hinit & ->) _]]];
      [done..|].
    apply init_returns in Hinit as [Hmac Huid]. subst tag_mac.
    cbn [snd]. rewrite registered_snoc. apply Forall_app. split; [done|].
    by repeat constructor. }
  rewrite (Forall_fmap_ext_1 _ _ _ Hid).
  rewrite (list_fmap_compose _tag_mac (λ m, m +:+ "_content")).
  destruct (setup_inv_loaded w acts) as (Hnd & _).
  apply NoDup_fmap_2; [|done].
  intros m1 m2. apply string_app_inj_r.
Qed.

Lemma enumeration_outcome hub l st :
  (∀ m, m ∈ l → m ∉ added_entities st) →
  add_image_entities hub l st
  = (if decide (Exists (eligible hub) l) then Raise TypeError
     else Return (), st).
Proof.
  induction l as [|m l IH]; intros Hfresh.
  - cbn [add_image_entities].
    rewrite decide_False; [done|]. by intros ?%Exists_nil.
  - cbn [add_image_entities].
    destruct (add_image_entity_cases hub st m)
      as [[-> Hwhy]|[[(err & Hinit & ->) (_ & Hnap & Hnbl)]
                    |[(entity & Hinit & _) _]]].
    + rewrite IH by (intros m' Hm'; apply Hfresh; by right).
      assert (¬ eligible hub m) as Hne.
      { unfold eligible. destruct Hwhy as [Hin|[?|?]]; [|tauto..].
        exfalso. apply (Hfresh m); [by left|done]. }
      destruct (decide (Exists (eligible hub) l)) as [Hex|Hex].
      * rewrite decide_True; [done|]. by right.
      * rewrite decide_False; [done|]. by intros [?|?]%Exists_cons.
    + assert (__init__ hub m = Raise TypeError) as Hraise by reflexivity.
      rewrite Hraise in Hinit. inversion Hinit; subst err.
      rewrite decide_True; [done|]. by left.
    + discriminate Hinit.
Qed.

(** X13: setting up the platform fails as soon as the hub lists a tag
    that is neither ["ap"] nor blacklisted: the constructor raises
    [TypeError], the exception leaves [async_setup_entry], nothing is
    registered and the closure is not connected to the dispatcher.  When
    the hub lists no such tag, [async_setup_entry] returns, nothing is
    registered, and the closure is connected to the tag-discovered
    signal. *)
Theorem setup_entry_outcome (w : World) :
  (Exists (eligible (w_hub w)) (tags (w_hub w)) →
     async_setup_entry w
     = (Raise TypeError,
        set_w_setup w {| added_entities := ∅; add_entities_calls := [] |}))
  ∧ (¬ Exists (eligible (w_hub w)) (tags (w_hub w)) →
       async_setup_entry w
       = (Return (),
          {| w_hub := w_hub w;
             w_bus :=
               {| connections :=
                    connections (w_bus w)
                    ++ [ {| conn_handle := next_handle (w_bus w);
                            conn_signal := DOMAIN +:+ "_tag_discovered";
                            conn_target := AddImageEntity |} ];
                  next_handle := S (next_handle (w_bus w)) |};
             w_objects := w_objects w;
             w_setup := {| added_entities := ∅; add_entities_calls := [] |};
             w_on_unload := w_on_unload w ++ [next_handle (w_bus w)];
             w_states := w_states w |})).
Proof.
  assert (startup_enumeration (w_hub w)
          = (if decide (Exists (eligible (w_hub w)) (tags (w_hub w)))
             then Raise TypeError else Return (),
             {| added_entities := ∅; add_entities_calls := [] |})) as Hloop.
  { unfold startup_enumeration. apply enumeration_outcome.
    intros m _. apply not_elem_of_empty. }
  unfold async_setup_entry. rewrite Hloop.
  split; intros Hex.
  - by rewrite decide_True.
  - by rewrite decide_False.
Qed.

(** ** Further properties of [async_image] *)

(** X9: [async_image] returns image bytes only when they are the contents
    of a readable file at the resolved path, and always then. *)
Theorem async_image_returns_file_only hass fs self log content :
  (async_image hass fs self log).1.1 = Return (Some content)
  ↔ fs !! resolved_path hass self = Some (File content true).
Proof.
  unfold async_image, resolved_path, os_path_exists, open_rb_read,
    async_add_executor_job.
  destruct self as [mac uid info [p|] eid rem]; simpl;
    (destruct (fs !! _) as [[c [|]|]|] eqn:Hfs; simpl;
     [ split; intros Heq; inversion Heq; by subst
     | split; intros Heq; inversion Heq
     | split; intros Heq; inversion Heq
     | split; intros Heq; inversion Heq ]).
Qed.

(** X10: once an entity has answered a call, the path it cached decides
    every later call: whatever host object a later call is made with, it
    behaves as a call on the original entity with the host of the first
    call. *)
Theorem async_image_uses_cached_path hass fs self log hass' fs' log' :
  async_image hass' fs' (async_image hass fs self log).1.2 log'
  = async_image hass fs' self log'.
Proof.
  rewrite async_image_entity.
  unfold async_image, resolved_path.
  destruct self as [mac uid info [p|] eid rem]; reflexivity.
Qed.

(** ** Further properties of the subscriptions *)

(** X12: unloading a config entry that was set up on a dispatcher not yet
    connected to the closure disconnects the closure: the dispatcher's
    table is what it was before setup, and no signal changes the setup
    state any more. *)
Theorem unload_disconnects_closure (w : World) :
  w_on_unload w = [] →
  (∀ c, c ∈ connections (w_bus w) → conn_handle c < next_handle (w_bus w)) →
  AddImageEntity ∉ conn_target <$> connections (w_bus w) →
  connections (w_bus (async_unload_entry (async_setup_entry w).2))
  = connections (w_bus w)
  ∧ ∀ hub' signal args,
      w_setup (async_dispatcher_send
                 (set_w_hub (async_unload_entry (async_setup_entry w).2) hub')
                 signal args)
      = w_setup (async_setup_entry w).2.
Proof.
  intros Hunload Hwf Hfresh.
  assert (connections (w_bus (async_unload_entry (async_setup_entry w).2))
          = connections (w_bus w)) as Hconn.
  { unfold async_unload_entry, async_setup_entry, async_dispatcher_connect.
    destruct (startup_enumeration (w_hub w)) as [[u|err] st];
      cbn [snd set_w_setup w_bus w_on_unload]; rewrite Hunload;
      rewrite remove_dispatchers_connections; cbn [connections app rev].
    - rewrite filter_app, filter_keep_all.
      + rewrite filter_cons_False, filter_nil, app_nil_r; [done|].
        simpl. intros Hn. apply Hn. set_solver.
      + intros c Hc%Hwf. simpl. rewrite not_elem_of_cons.
        split; [lia|apply not_elem_of_nil].
    - apply filter_keep_all. intros c _. apply not_elem_of_nil. }
  split; [done|].
  intros hub' signal args. unfold async_dispatcher_send.
  cbn [set_w_hub w_bus].
  rewrite fold_call_target_setup; [done|].
  intros Hin%listeners_targets. by rewrite Hconn in Hin.
Qed.

Lemma write_ha_state_of ref w self :
  w_objects w !! ref = Some self →
  states_of ref (async_write_ha_state ref w)
  = states_of ref w ++ [(ref, available (w_hub w) self)].
Proof.
  intros Hobj. unfold async_write_ha_state, states_of. rewrite Hobj.
  simpl. rewrite filter_app. f_equal.
  by rewrite filter_cons_True, filter_nil.
Qed.

(** A signal without arguments makes the entity write its state once for
    each of its connections the signal reaches. *)
Lemma fold_call_target_states ref self l w :
  w_objects w !! ref = Some self →
  states_of ref (fold_left (call_target []) l w)
  = states_of ref w
    ++ replicate (length (filter (target_of ref) l))
         (ref, available (w_hub w) self).
Proof.
  revert w. induction l as [|tgt l IH]; intros w Hobj.
  - simpl. by rewrite app_nil_r.
  - destruct (call_target_frame [] w tgt) as (Ho & Hh & _).
    cbn [fold_left]. rewrite IH by (by rewrite Ho). rewrite Hh.
    destruct (decide (target_of ref tgt)) as [Ht|Ht].
    + rewrite filter_cons_True by done. cbn [length replicate].
      assert (call_target [] w tgt = async_write_ha_state ref w) as ->.
      { by destruct Ht as [-> | ->]. }
      rewrite (write_ha_state_of ref w self Hobj).
      by rewrite <- app_assoc.
    + rewrite filter_cons_False by done.
      by rewrite call_target_other.
Qed.

Lemma listeners_of_entity ref bus signal :
  filter (target_of ref) (listeners bus signal)
  = conn_target <$>
      filter (λ c, conn_signal c = signal)
        (filter (λ c, target_of ref (conn_target c)) (connections bus)).
Proof.
  unfold listeners.
  induction (connections bus) as [|c l IH]; [done|].
  rewrite !filter_cons.
  destruct (decide (conn_signal c = signal)) as [Hs|Hs],
    (decide (target_of ref (conn_target c))) as [Ht|Ht].
  - rewrite filter_cons_True by done. rewrite fmap_cons.
    rewrite filter_cons_True by done. rewrite fmap_cons. by rewrite IH.
  - rewrite fmap_cons. rewrite filter_cons_False by done. by rewrite IH.
  - rewrite filter_cons_False by done. by rewrite IH.
  - by rewrite IH.
Qed.

Lemma filter_filter_elem {A} (P Q : A → Prop)
    `{!∀ x, Decision (P x), !∀ x, Decision (Q x)} (l : list A) :
  (∀ x, x ∈ l → P x → Q x) → filter P (filter Q l) = filter P l.
Proof.
  induction l as [|x l IH]; intros Himp; [done|].
  assert (filter P (filter Q l) = filter P l) as IH'.
  { apply IH. intros y Hy. apply Himp. by right. }
  rewrite (filter_cons Q). destruct (decide (Q x)) as [HQ|HQ].
  - rewrite !filter_cons. by rewrite IH'.
  - rewrite IH'. rewrite filter_cons_False; [done|].
    intros HP. apply HQ. apply Himp; [by left|done].
Qed.

Lemma unsubscribed_filter ref bus :
  unsubscribed ref bus →
  filter (λ c, target_of ref (conn_target c)) (connections bus) = [].
Proof.
  unfold unsubscribed.
  induction (connections bus) as [|c l IH]; intros Hun; [done|].
  rewrite filter_cons_False by (apply Hun; by left).
  apply IH. intros c' Hc'. apply Hun. by right.
Qed.

(** While the entity stays attached, its connections stay the same, in
    the same order, and no other entity comes to keep one of its
    handles. *)
Lemma subscriptions_perform ref self n cs w a :
  a ≠ AddedToHass ref → a ≠ Removed ref →
  attached ref self n w →
  handles_apart ref n w →
  filter (λ c, target_of ref (conn_target c)) (connections (w_bus w)) = cs →
  handles_apart ref n (perform w a)
  ∧ filter (λ c, target_of ref (conn_target c))
      (connections (w_bus (perform w a))) = cs.
Proof.
  intros Hna Hnr (Hobj & Hrem & Hconn & Hnext) Hapart Hcs.
  destruct a as [hub|signal args|r|r]; cbn [perform].
  - done.
  - destruct (send_frame w signal args) as (Ho & _ & Hb).
    unfold handles_apart. by rewrite Ho, Hb.
  - assert (r ≠ ref) as Hr by congruence.
    destruct (w_objects w !! r) as [other|] eqn:Hother; [|done].
    rewrite async_added_to_hass_eq.
    cbn [set_w_entity w_bus connections]. split.
    + intros r' self' h Hr'. cbn [set_w_entity w_objects].
      destruct (decide (r' = r)) as [->|Hrr].
      * rewrite lookup_insert_eq. intros [= <-]. cbn [_on_remove set_on_remove].
        intros [Hh|Hh]%elem_of_app; [by apply (Hapart r other)|].
        rewrite !elem_of_cons, elem_of_nil in Hh.
        rewrite !elem_of_cons, elem_of_nil. lia.
      * rewrite lookup_insert_ne by done. by apply Hapart.
    + rewrite filter_app, Hcs.
      rewrite !filter_cons_False, filter_nil, ?app_nil_r; [done|..];
        cbn [conn_target]; intros [Heq|Heq]; inversion Heq; by subst.
  - assert (r ≠ ref) as Hr by congruence.
    destruct (w_objects w !! r) as [other|] eqn:Hother; [|done].
    unfold async_remove. cbn [set_w_entity w_bus]. split.
    + intros r' self' h Hr'. cbn [set_w_entity w_objects].
      destruct (decide (r' = r)) as [->|Hrr].
      * rewrite lookup_insert_eq. intros [= <-]. cbn [_on_remove set_on_remove].
        by intros ?%elem_of_nil.
      * rewrite lookup_insert_ne by done. by apply Hapart.
    + rewrite remove_dispatchers_connections, <- Hcs.
      apply filter_filter_elem.
      intros c Hc Ht Hin. apply (proj1 (elem_of_rev _ _)) in Hin.
      apply (Hapart r other (conn_handle c) Hr Hother Hin).
      by apply Hconn.
Qed.

Lemma subscriptions_run ref self n cs acts w :
  AddedToHass ref ∉ acts → Removed ref ∉ acts →
  attached ref self n w →
  handles_apart ref n w →
  filter (λ c, target_of ref (conn_target c)) (connections (w_bus w)) = cs →
  filter (λ c, target_of ref (conn_target c))
    (connections (w_bus (run w acts))) = cs.
Proof.
  unfold run. revert w.
  induction acts as [|a acts IH]; intros w Hna Hnr Hatt Hapart Hcs; [done|].
  apply not_elem_of_cons in Hna as [Hna Hna'].
  apply not_elem_of_cons in Hnr as [Hnr Hnr'].
  destruct (subscriptions_perform ref self n cs w a) as [Hapart' Hcs'];
    [done..|].
  simpl. apply IH; [done..| |done|done]. by apply attached_perform.
Qed.

(** X11: while an entity is attached, that is from its attachment on,
    through whatever signals, hub updates and comings and goings of other
    entities, until it is removed, each of its three signals sent without
    arguments makes it write its state exactly once, with the
    availability the hub gives it at that moment.  The image-updated
    topic of the tag must not coincide with one of the two global topics,
    and the handles kept by the entities must be handles the dispatcher
    has given out. *)
Theorem attached_entity_refreshes (w : World) (ref : nat)
    (self : OpenEPaperLinkImageEntity) (between : list action)
    (signal : string) :
  w_objects w !! ref = Some self →
  _on_remove self = [] →
  (∀ c, c ∈ connections (w_bus w) → conn_handle c < next_handle (w_bus w)) →
  (∀ r other h, w_objects w !! r = Some other → h ∈ _on_remove other →
                h < next_handle (w_bus w)) →
  unsubscribed ref (w_bus w) →
  SIGNAL_TAG_IMAGE_UPDATE +:+ "_" +:+ _tag_mac self
  ≠ DOMAIN +:+ "_connection_status" →
  SIGNAL_TAG_IMAGE_UPDATE +:+ "_" +:+ _tag_mac self
  ≠ DOMAIN +:+ "_blacklist_update" →
  AddedToHass ref ∉ between →
  Removed ref ∉ between →
  signal ∈ [SIGNAL_TAG_IMAGE_UPDATE +:+ "_" +:+ _tag_mac self;
            DOMAIN +:+ "_connection_status";
            DOMAIN +:+ "_blacklist_update"] →
  let w' := run (perform w (AddedToHass ref)) between in
  states_of ref (async_dispatcher_send w' signal [])
  = states_of ref w' ++ [(ref, available (w_hub w') self)].
Proof.
  intros Hobj Hrem Hwf Hhandles Hun Hne1 Hne2 Hna Hnr Hsig w'.
  subst w'.
  assert (DOMAIN +:+ "_connection_status" ≠ DOMAIN +:+ "_blacklist_update")
    as Hne3 by (by intros Heq%String.app_inj).
  set (n := next_handle (w_bus w)).
  set (w1 := perform w (AddedToHass ref)).
  pose proof (attached_after_attach w ref self Hobj Hrem Hwf Hun) as Hatt.
  fold n in Hatt. fold w1 in Hatt.
  assert (handles_apart ref n w1) as Hapart.
  { intros r other h Hr. unfold w1.
    rewrite (perform_added w ref self Hobj). cbn [set_w_entity w_objects].
    rewrite lookup_insert_ne by done. intros Hother Hh.
    specialize (Hhandles r other h Hother Hh). fold n in Hhandles.
    rewrite !elem_of_cons, elem_of_nil. lia. }
  assert (filter (λ c, target_of ref (conn_target c))
            (connections (w_bus w1))
          = [ {| conn_handle := n;
                 conn_signal :=
                   SIGNAL_TAG_IMAGE_UPDATE +:+ "_" +:+ _tag_mac self;
                 conn_target := WriteHaState ref |};
              {| conn_handle := S n;
                 conn_signal := DOMAIN +:+ "_connection_status";
                 conn_target := WriteHaState ref |};
              {| conn_handle := S (S n);
                 conn_signal := DOMAIN +:+ "_blacklist_update";
                 conn_target := HandleBlacklistUpdate ref |} ]) as Hcs.
  { unfold w1. rewrite (perform_added w ref self Hobj).
    cbn [set_w_entity w_bus]. rewrite async_added_to_hass_eq.
    cbn [snd connections]. rewrite filter_app.
    rewrite (unsubscribed_filter ref (w_bus w) Hun).
    rewrite !filter_cons_True, filter_nil;
      [done|unfold target_of; cbn [conn_target]; by auto..]. }
  pose proof (attached_run ref _ n between w1 Hna Hnr Hatt)
    as (Hobj' & _).
  pose proof (subscriptions_run ref _ n _ between w1 Hna Hnr Hatt Hapart Hcs)
    as Hcs'.
  unfold async_dispatcher_send.
  rewrite (fold_call_target_states ref _ _ _ Hobj').
  rewrite listeners_of_entity, Hcs'.
  change (available (w_hub (run w1 between))
            (set_on_remove self [n; S n; S (S n)]))
    with (available (w_hub (run w1 between)) self).
  rewrite !elem_of_cons, elem_of_nil in Hsig.
  destruct Hsig as [->|[->|[->|[]]]].
  - rewrite filter_cons_True by done.
    by rewrite !filter_cons_False, filter_nil by (simpl; congruence).
  - rewrite filter_cons_False by done.
    rewrite filter_cons_True by done.
    by rewrite filter_cons_False, filter_nil by (simpl; congruence).
  - rewrite !filter_cons_False by done.
    by rewrite filter_cons_True, filter_nil by done.
Qed.

End Properties.

(** ** The model at work on the concrete installation *)

#[local] Existing Instance example_integration.

(** The startup enumeration raises at ["AA01"], the first tag that is
    neither ["ap"] nor blacklisted, and registers nothing. *)
Example startup_enumeration_example :
  startup_enumeration example_hub
  = (Raise TypeError, {| added_entities := ∅; add_entities_calls := [] |}).
Proof. reflexivity. Qed.

(** With no tag to create an entity for, setup returns and connects the
    closure. *)
Example quiet_setup_example :
  (async_setup_entry example_world_quiet).1 = Return ()
  ∧ listeners (w_bus (async_setup_entry example_world_quiet).2)
      "open_epaper_link_tag_discovered"
    = [AddImageEntity].
Proof. by vm_compute. Qed.

(** While the entity is attached, a connection-status signal writes its
    state, with the availability of that moment. *)
Example attached_entity_writes_state :
  w_states
    (run example_world
       [AddedToHass 7;
        DispatcherSend "open_epaper_link_connection_status" [];
        HubUpdate example_hub_offline;
        DispatcherSend "open_epaper_link_blacklist_update" []])
  = [(7, true); (7, false)].
Proof. by vm_compute. Qed.

Lemma available_spec_witness :
  available example_hub example_entity = true.
Proof.
  apply (proj1 (available_spec example_hub example_entity)).
  split; [reflexivity|]. split; [|by vm_compute].
  apply (bool_decide_unpack _). by vm_compute.
Defined.

Lemma async_image_readable_file_witness :
  async_image "/config" example_fs example_entity []
  = (Return (Some example_image),
     set_image_path example_entity
       (Some "/config/www/open_epaper_link/open_epaper_link.AA01.jpg"),
     []).
Proof.
  apply (async_image_readable_file (integration := example_integration)
           "/config" example_fs example_entity [] example_image).
  by vm_compute.
Defined.

(** C2 as stated fails: the image of ["BB02"] exists, yet reading it raises
    [PermissionError] and [async_image] returns [None] instead of the
    file's contents. *)
Lemma async_image_existing_file_counterexample :
  example_fs !! resolved_path "/config" (example_entity_for "BB02")
  = Some (File example_image false)
  ∧ (async_image "/config" example_fs (example_entity_for "BB02") []).1.1
    = Return None
  ∧ ¬ (∀ (hass : string) fs self log content readable,
         fs !! resolved_path hass self = Some (File content readable) →
         (async_image hass fs self log).1.1 = Return (Some content)).
Proof.
  split; [by vm_compute|]. split; [by vm_compute|].
  intros Hclaim.
  specialize (Hclaim "/config" example_fs (example_entity_for "BB02") []
                example_image false).
  vm_compute in Hclaim. by specialize (Hclaim eq_refl).
Qed.

Lemma async_image_read_failure_witness :
  async_image "/config" example_fs (example_entity_for "BB02") []
  = (Return None,
     set_image_path (example_entity_for "BB02")
       (Some "/config/www/open_epaper_link/open_epaper_link.BB02.jpg"),
     [ {| log_entity_id := None; log_err := PermissionError |} ]).
Proof.
  apply (proj2 (async_image_read_failure
                  (integration := example_integration) "/config" example_fs
                  (example_entity_for "BB02") []) PermissionError);
    by vm_compute.
Defined.

Lemma async_image_missing_file_witness :
  async_image "/config" example_fs (example_entity_for "CC03") []
  = (Return None,
     set_image_path (example_entity_for "CC03")
       (Some "/config/www/open_epaper_link/open_epaper_link.CC03.jpg"),
     []).
Proof.
  apply (async_image_missing_file (integration := example_integration)
           "/config" example_fs (example_entity_for "CC03") []).
  by vm_compute.
Defined.

Lemma async_image_path_cached_witness :
  (async_image_calls
     [("/config", example_fs); ("/elsewhere", ∅); ("/config", example_fs)]
     example_entity []).1
  = set_image_path example_entity
      (Some "/config/www/open_epaper_link/open_epaper_link.AA01.jpg").
Proof.
  apply (async_image_path_cached (integration := example_integration)
           "/config" example_fs
           [("/elsewhere", ∅); ("/config", example_fs)]
           example_entity []).
  reflexivity.
Defined.

Lemma add_image_entity_idempotent_witness :
  async_add_image_entity example_hub example_setup_state "AA01"
  = (Return (), example_setup_state).
Proof.
  apply (proj1 add_image_entity_idempotent example_hub
           example_setup_state "AA01").
  by vm_compute.
Defined.

Lemma discovery_after_blacklist_raises_witness :
  async_add_image_entity example_hub_cleared
    (w_setup (async_setup_entry example_world).2) "BB02"
  = (Raise TypeError, w_setup (async_setup_entry example_world).2).
Proof.
  destruct (discovery_after_blacklist_raises example_world "BB02")
    as (_ & _ & Hlater).
  - by vm_compute.
  - apply (Hlater example_hub_cleared); [discriminate|].
    apply not_elem_of_empty.
Defined.

Lemma subscriptions_released_witness :
  states_of 7
    (run (perform (run (perform example_world (AddedToHass 7))
                     example_between)
            (Removed 7))
       example_after)
  = states_of 7 (run (perform example_world (AddedToHass 7)) example_between).
Proof.
  destruct (subscriptions_released example_world 7 example_entity)
    as (_ & _ & Hrelease).
  - by vm_compute.
  - reflexivity.
  - intros c Hc. by apply elem_of_nil in Hc.
  - intros c Hc. by apply elem_of_nil in Hc.
  - destruct (Hrelease example_between) as (_ & _ & _ & Hquiet).
    + unfold example_between. rewrite !not_elem_of_cons.
      repeat split; try discriminate. apply not_elem_of_nil.
    + unfold example_between. rewrite !not_elem_of_cons.
      repeat split; try discriminate. apply not_elem_of_nil.
    + apply Hquiet. unfold example_after. rewrite !not_elem_of_cons.
      repeat split; try discriminate. apply not_elem_of_nil.
Defined.

(** ** The further properties on the concrete installation *)

Lemma setup_entry_outcome_witness :
  async_setup_entry example_world
  = (Raise TypeError,
     set_w_setup example_world
       {| added_entities := ∅; add_entities_calls := [] |}).
Proof.
  apply (proj1 (setup_entry_outcome example_world)).
  apply Exists_cons_hd. split; [discriminate|by vm_compute].
Defined.

Lemma async_image_returns_file_only_witness :
  example_fs !! resolved_path "/config" example_entity
  = Some (File example_image true).
Proof.
  apply (proj1 (async_image_returns_file_only
                  (integration := example_integration) "/config" example_fs
                  example_entity [] example_image)).
  by vm_compute.
Defined.

Lemma attached_entity_refreshes_witness :
  states_of 7
    (async_dispatcher_send
       (run (perform example_world (AddedToHass 7)) example_between)
       "open_epaper_link_connection_status" [])
  = states_of 7 (run (perform example_world (AddedToHass 7)) example_between)
    ++ [(7, available
              (w_hub (run (perform example_world (AddedToHass 7))
                        example_between))
              example_entity)].
Proof.
  apply (attached_entity_refreshes example_world 7 example_entity
           example_between "open_epaper_link_connection_status").
  - by vm_compute.
  - reflexivity.
  - intros c Hc. by apply elem_of_nil in Hc.
  - intros r other h Hother Hh. unfold example_world in Hother.
    cbn [w_objects] in Hother.
    apply lookup_singleton_Some in Hother as [_ <-].
    by apply elem_of_nil in Hh.
  - intros c Hc. by apply elem_of_nil in Hc.
  - by vm_compute.
  - by vm_compute.
  - unfold example_between. rewrite !not_elem_of_cons.
    repeat split; try discriminate. apply not_elem_of_nil.
  - unfold example_between. rewrite !not_elem_of_cons.
    repeat split; try discriminate. apply not_elem_of_nil.
  - right. left.
Defined.

Lemma unload_disconnects_closure_witness :
  connections
    (w_bus (async_unload_entry (async_setup_entry example_world_quiet).2))
  = connections (w_bus example_world_quiet).
Proof.
  apply (proj1 (unload_disconnects_closure example_world_quiet eq_refl
                  (λ c Hc, False_ind _ (proj1 (elem_of_nil c) Hc))
                  (not_elem_of_nil AddImageEntity))).
Defined.
